(** * devtool test-image plugin (scripts/lib/devtool/testimage.py)

    A shallow embedding of the [test-image] subcommand: the package resolver
    [_collect_install_packages] and the entry point [test_image], together
    with the Python string operations they use.  Calls to the outside world
    (tinfoil, the recipe parser, the file system, the logger and
    [build_image_task]) are recorded in an event trace; exceptions are the
    left summand of the outcome. *)

From Stdlib Require Import ZArith Ascii.
From Stdlib Require String.
From stdpp Require Import base option list strings gmap sorting.

(** ** Python strings

    A Python [str] is modelled by [string]; a character stands for the code
    point of the same number (0..255). *)
Module PyStr.

(** [str.isspace] on one character, for code points below 256:
    TAB..CR, FS..US, SPACE, NEL and NBSP. *)
Definition isspace (c : ascii) : bool :=
  let n := N_of_ascii c in
  ((9 <=? n) && (n <=? 13) || (28 <=? n) && (n <=? 32)
   || (n =? 133) || (n =? 160))%N.

(** Truth value of a [str]: the empty string is false. *)
Definition nonempty (s : string) : bool :=
  match s with
  | EmptyString => false
  | String _ _ => true
  end.

(** [s.split(sep)] for a one-character separator: never the empty list. *)
Fixpoint split_sep (sep : ascii) (s : string) : list string :=
  match s with
  | EmptyString => [EmptyString]
  | String c s' =>
      if Ascii.eqb c sep then EmptyString :: split_sep sep s'
      else match split_sep sep s' with
           | w :: ws => String c w :: ws
           | [] => [String c EmptyString]
           end
  end.

(** [s.split()]: the maximal runs of non-whitespace characters. *)
Fixpoint split (s : string) : list string :=
  match s with
  | EmptyString => []
  | String c s' =>
      if isspace c then split s'
      else match s' with
           | EmptyString => [String c EmptyString]
           | String c' _ =>
               if isspace c' then String c EmptyString :: split s'
               else match split s' with
                    | w :: ws => String c w :: ws
                    | [] => [String c EmptyString]
                    end
           end
  end.

Fixpoint lstrip (s : string) : string :=
  match s with
  | EmptyString => EmptyString
  | String c s' => if isspace c then lstrip s' else s
  end.

Fixpoint rstrip (s : string) : string :=
  match s with
  | EmptyString => EmptyString
  | String c s' =>
      match rstrip s' with
      | EmptyString => if isspace c then EmptyString else String c EmptyString
      | r => String c r
      end
  end.

(** [s.strip()] *)
Definition strip (s : string) : string := rstrip (lstrip s).

(** [sep.join(l)] *)
Fixpoint join (sep : string) (l : list string) : string :=
  match l with
  | [] => EmptyString
  | [x] => x
  | x :: xs => x +:+ sep +:+ join sep xs
  end.

(** [s.startswith(p)] and [s.endswith(p)] *)
Fixpoint startswith (s p : string) : bool :=
  match p, s with
  | EmptyString, _ => true
  | String a p', String b s' => Ascii.eqb a b && startswith s' p'
  | String _ _, EmptyString => false
  end.

Fixpoint endswith (s p : string) : bool :=
  String.eqb s p ||
  match s with
  | EmptyString => false
  | String _ s' => endswith s' p
  end.

(** Comparison of two [str]: lexicographic on code points. *)
Definition le (a b : string) : Prop := String.leb a b = true.
Definition lt (a b : string) : Prop := String.ltb a b = true.

#[global] Instance le_dec a b : Decision (le a b).
Proof. unfold le. apply _. Defined.

#[global] Instance lt_dec a b : Decision (lt a b).
Proof. unfold lt. apply _. Defined.

(** [set(l)]: the elements of [l], in no particular order. *)
Definition set (l : list string) : gset string := list_to_set l.

(** [sorted(s)] of a set: its elements in ascending order.  The sort is a
    stable merge sort; an element of the right run is taken only when it is
    strictly smaller. *)
Definition sorted (s : gset string) : list string :=
  merge_sort le (elements s).

(** The double quote character, as a one-character string. *)
Definition dq : string := String (ascii_of_nat 34) EmptyString.

End PyStr.

(** ** Effects

    A run yields the trace of the calls it made to its collaborators, in
    order, and either the exception that left it or its value. *)

Inductive exn :=
| DevtoolError (msg : string)
| OSError (msg : string).

(** [str(exc)] *)
Definition exn_str (e : exn) : string :=
  match e with
  | DevtoolError msg => msg
  | OSError msg => msg
  end.

Inductive level := DEBUG | INFO.

Inductive event :=
| SetupTinfoil
| ParseRecipe (pn : string)
| TinfoilShutdown
| Makedirs (name : string) (exist_ok : bool)
| Log (lvl : level) (fmt : string) (args : list string)
| BuildImageTask (image : string) (add_packages : option (list string))
    (task : string) (extra_append : list string).

Definition M (A : Type) : Type := list event * (exn + A).

Definition trace {A} (m : M A) : list event := fst m.
Definition outcome {A} (m : M A) : exn + A := snd m.

Definition ret {A} (a : A) : M A := ([], inr a).

Definition raise {A} (e : exn) : M A := ([], inl e).

Definition bind {A B} (m : M A) (k : A -> M B) : M B :=
  match m with
  | (t, inl e) => (t, inl e)
  | (t, inr a) => (t ++ trace (k a), outcome (k a))
  end.

Definition emit (ev : event) : M unit := ([ev], inr tt).

(** [try: body finally: fin]: [fin] runs on both exits of [body]; an
    exception of [fin] itself replaces the outcome of [body]. *)
Definition try_finally {A} (body : M A) (fin : M unit) : M A :=
  (trace body ++ trace fin,
   match outcome fin with
   | inl e => inl e
   | inr _ => outcome body
   end).

(** [try: body except Exception as exc: handler exc] *)
Definition try_except {A} (body : M A) (handler : exn -> M A) : M A :=
  match body with
  | (t, inl e) => (t ++ trace (handler e), outcome (handler e))
  | (t, inr a) => (t, inr a)
  end.

Declare Scope py_scope.
Delimit Scope py_scope with py.
Notation "x <- m ;; k" := (bind m (fun x => k))
  (at level 100, m at next level, right associativity) : py_scope.
Notation "m ;;; k" := (bind m (fun _ => k))
  (at level 100, right associativity) : py_scope.

(** ** The collaborators *)

(** The datastore of a parsed recipe: [rd.getVar(name)]. *)
Record RecipeData := { getVar : string -> option string }.

(** [config.workspace_path] *)
Record Config := { workspace_path : string }.

(** The parsed command line; an option left out is [None]. *)
Record Args := { imagename : option string; package : option string }.

(** What the outside world answers during one run.
    - [parse_recipe pn]: [devtool.parse_recipe(config, tinfoil, pn, True)],
      [None] when the recipe is not found or does not parse;
    - [mkdir name]: the exception of the directory creation inside
      [os.makedirs], [None] when it succeeds;
    - [isdir name]: [os.path.isdir(name)];
    - [build_image_task image task extra_append]: the pair returned by
      [devtool.build_image.build_image_task].
    The collaborators are taken to return; of the calls made by
    [test_image] only the creation of the directory may raise. *)
Record World := {
  parse_recipe : string -> option RecipeData;
  mkdir : string -> option exn;
  isdir : string -> bool;
  build_image_task : string -> string -> list string -> Z * option string
}.

(** [os.path.join(a, b)] on POSIX, for one component. *)
Definition path_join (a b : string) : string :=
  if PyStr.startswith b "/" then b
  else if negb (PyStr.nonempty a) || PyStr.endswith a "/" then a +:+ b
  else a +:+ "/" +:+ b.

(** Truth value of an optional [str] ([None] and the empty string are
    false). *)
Definition truthy (o : option string) : bool :=
  match o with
  | Some s => PyStr.nonempty s
  | None => false
  end.

(** ** The program *)

Section Program.
Variable w : World.

Local Open Scope py_scope.

(** [logger.info(fmt, *args)] and [logger.debug(fmt, *args)] *)
Definition logger_info (fmt : string) (args : list string) : M unit :=
  emit (Log INFO fmt args).
Definition logger_debug (fmt : string) (args : list string) : M unit :=
  emit (Log DEBUG fmt args).

(** [parse_recipe(config, tinfoil, pn, True)] *)
Definition call_parse_recipe (pn : string) : M (option RecipeData) :=
  emit (ParseRecipe pn) ;;; ret (parse_recipe w pn).

(** [setup_tinfoil(basepath=basepath)] and [tinfoil.shutdown()] *)
Definition setup_tinfoil : M unit := emit SetupTinfoil.
Definition tinfoil_shutdown : M unit := emit TinfoilShutdown.

(** [os.makedirs(name, exist_ok=exist_ok)]: a failure of the creation is
    swallowed when [exist_ok] is set and the directory is there. *)
Definition makedirs (name : string) (exist_ok : bool) : M unit :=
  emit (Makedirs name exist_ok) ;;;
  match mkdir w name with
  | None => ret tt
  | Some e => if exist_ok && isdir w name then ret tt else raise e
  end.

(** [build_image_task(config, basepath, workspace, image,
    add_packages=add_packages, task=task, extra_append=extra_append)] *)
Definition call_build_image_task (image : string)
    (add_packages : option (list string)) (task : string)
    (extra_append : list string) : M (Z * option string) :=
  emit (BuildImageTask image add_packages task extra_append) ;;;
  ret (build_image_task w image task extra_append).

(** The [for pn in package_names] loop of [_collect_install_packages];
    [install] is the list built so far. *)
Fixpoint collect_loop (package_names install : list string)
    : M (list string) :=
  match package_names with
  | [] => ret install
  | pn :: rest =>
      rd <- call_parse_recipe pn ;;
      match rd with
      | None =>
          raise (DevtoolError
                   ("Unable to find or parse recipe for package " +:+ pn))
      | Some rd =>
          let install := install ++ [pn] in
          let packages_var := default "" (getVar rd "PACKAGES") in
          let packages := PyStr.split packages_var in
          let ptest_pkg := pn +:+ "-ptest" in
          if decide (ptest_pkg ∈ packages) then
            let install := install ++ [ptest_pkg] in
            logger_info "Including ptest package %s" [ptest_pkg] ;;;
            collect_loop rest install
          else
            logger_debug "No ptest package found for %s" [pn] ;;;
            collect_loop rest install
      end
  end.

Definition _collect_install_packages (package_names : list string)
    : M (list string) :=
  collect_loop package_names [].

(** The list [extra_append] of [test_image]. *)
Definition extra_append (logdir pkg_append : string) : list string :=
  [ "TEST_LOG_DIR = " +:+ PyStr.dq +:+ logdir +:+ PyStr.dq;
    "TESTIMAGE_UPDATE_VARS:append = " +:+ PyStr.dq
      +:+ " TEST_LOG_DIR IMAGE_CLASSES TEST_SUITES DISTRO_FEATURES"
      +:+ PyStr.dq;
    "IMAGE_CLASSES += " +:+ PyStr.dq +:+ " testimage" +:+ PyStr.dq;
    "do_testimage[depends] += " +:+ PyStr.dq
      +:+ " ${PN}:do_image_complete" +:+ PyStr.dq;
    "TEST_SUITES = " +:+ PyStr.dq +:+ "ping ssh ptest" +:+ PyStr.dq;
    "DISTRO_FEATURES:append = " +:+ PyStr.dq +:+ " ptest" +:+ PyStr.dq;
    "TEST_RUNQEMUPARAMS = " +:+ PyStr.dq +:+ "slirp" +:+ PyStr.dq;
    "IMAGE_FSTYPES:append = " +:+ PyStr.dq +:+ " ext4" +:+ PyStr.dq;
    "QB_DEFAULT_FSTYPE = " +:+ PyStr.dq +:+ "ext4" +:+ PyStr.dq;
    "IMAGE_INSTALL:append = " +:+ PyStr.dq +:+ " " +:+ pkg_append
      +:+ PyStr.dq ].

(** [[p.strip() for p in package.split(',') if p.strip()]] *)
Definition package_names_of (package : string) : list string :=
  flat_map (fun p => if PyStr.nonempty (PyStr.strip p)
                     then [PyStr.strip p] else [])
           (PyStr.split_sep "," package).

(** [' '.join(sorted(set(install_pkgs)))] *)
Definition pkg_append_of (install_pkgs : list string) : string :=
  PyStr.join " " (PyStr.sorted (PyStr.set install_pkgs)).

Definition logdir_of (config : Config) : string :=
  path_join (workspace_path config) "testimage-logs".

(** Entry point of the [test-image] subcommand. *)
Definition test_image (args : Args) (config : Config) : M Z :=
  match imagename args with
  | None | Some EmptyString =>
      raise (DevtoolError "Image recipe to test must be specified")
  | Some image =>
  match package args with
  | None | Some EmptyString =>
      raise (DevtoolError
               "Package(s) to install must be specified via -p/--package")
  | Some package =>
  let package_names := package_names_of package in
  match package_names with
  | [] => raise (DevtoolError "No valid package name(s) provided")
  | _ :: _ =>
  setup_tinfoil ;;;
  install_pkgs <-
    try_finally (_collect_install_packages package_names)
                tinfoil_shutdown ;;
  let logdir := logdir_of config in
  try_except (makedirs logdir true)
    (fun exc =>
       raise (DevtoolError ("Failed to create test logs directory "
                            +:+ logdir +:+ ": " +:+ exn_str exc))) ;;;
  let pkg_append := pkg_append_of install_pkgs in
  let extra_append := extra_append logdir pkg_append in
  logger_info "Building and testing image %s with packages: %s"
              [image; PyStr.join " " install_pkgs] ;;;
  r <- call_build_image_task image None "testimage" extra_append ;;
  let '(result, _outputdir) := r in
  (if (result =? 0)%Z
   then logger_info "Testimage completed. Logs are in %s" [logdir]
   else ret tt) ;;;
  ret result
  end end end.

End Program.

(** ** A concrete world, for examples *)

Definition bash_rd : RecipeData :=
  {| getVar := fun v =>
       if String.eqb v "PACKAGES"
       then Some "bash-ptest bash-dbg bash-dev bash-doc bash"
       else None |}.

Definition zlib_rd : RecipeData :=
  {| getVar := fun v =>
       if String.eqb v "PACKAGES" then Some "zlib-dbg zlib-dev zlib"
       else None |}.

(** Only [bash] and [zlib] are known recipes; the file system creates any
    directory; the build returns [code]. *)
Definition demo_world (code : Z) : World :=
  {| parse_recipe := fun pn =>
       if String.eqb pn "bash" then Some bash_rd
       else if String.eqb pn "zlib" then Some zlib_rd
       else None;
     mkdir := fun _ => None;
     isdir := fun _ => false;
     build_image_task := fun _ _ _ => (code, Some "/ws/out") |}.

(** The same, on a file system that refuses the creation. *)
Definition readonly_world : World :=
  {| parse_recipe := parse_recipe (demo_world 0);
     mkdir := fun _ => Some (OSError "[Errno 30] Read-only file system");
     isdir := fun _ => false;
     build_image_task := build_image_task (demo_world 0) |}.

(** The same, where the log directory is already there. *)
Definition existing_world : World :=
  {| parse_recipe := parse_recipe (demo_world 0);
     mkdir := fun _ => Some (OSError "[Errno 17] File exists");
     isdir := fun _ => true;
     build_image_task := build_image_task (demo_world 0) |}.

Definition demo_config : Config := {| workspace_path := "/ws" |}.

Definition demo_args (image package : string) : Args :=
  {| imagename := Some image; package := Some package |}.

(** ** What the resolver adds *)

(** The tokens of a recipe's [PACKAGES] variable. *)
Definition packages_of (rd : RecipeData) : list string :=
  PyStr.split (default "" (getVar rd "PACKAGES")).

(** The test variant of [pn] is one of the packages of its recipe. *)
Definition ptest_listed (rd : RecipeData) (pn : string) : Prop :=
  pn +:+ "-ptest" ∈ packages_of rd.

(** What one resolved name adds to the install list. *)
Definition segment (rd : RecipeData) (pn : string) : list string :=
  pn :: (if decide (pn +:+ "-ptest" ∈ packages_of rd)
         then [pn +:+ "-ptest"] else []).

(** The log record of one resolved name. *)
Definition ptest_log (rd : RecipeData) (pn : string) : event :=
  if decide (pn +:+ "-ptest" ∈ packages_of rd)
  then Log INFO "Including ptest package %s" [pn +:+ "-ptest"]
  else Log DEBUG "No ptest package found for %s" [pn].

(** The segments of a list of names; a name without a recipe adds
    nothing. *)
Definition segments (w : World) (names : list string) : list (list string) :=
  (λ pn, from_option (λ rd, segment rd pn) [] (parse_recipe w pn)) <$> names.

(** The events of the resolver: recipe look-ups and its two log records. *)
Definition resolver_event (ev : event) : Prop :=
  match ev with
  | ParseRecipe _ => True
  | Log INFO fmt _ => fmt = "Including ptest package %s"
  | Log DEBUG fmt _ => fmt = "No ptest package found for %s"
  | _ => False
  end.

(** The names looked up in a trace, in order. *)
Definition parse_calls (t : list event) : list string :=
  omap (λ ev, match ev with ParseRecipe pn => Some pn | _ => None end) t.

Definition resolves (w : World) (pn : string) : Prop :=
  is_Some (parse_recipe w pn).

(** ** The exits of [test_image] *)

Definition building_log (image : string) (install_pkgs : list string)
    : event :=
  Log INFO "Building and testing image %s with packages: %s"
      [image; PyStr.join " " install_pkgs].

Definition completion_log (logdir : string) : event :=
  Log INFO "Testimage completed. Logs are in %s" [logdir].

Definition logdir_error (logdir : string) (exc : exn) : exn :=
  DevtoolError ("Failed to create test logs directory " +:+ logdir
                +:+ ": " +:+ exn_str exc).

(** The arguments are rejected by the checks at the head of
    [test_image]. *)
Definition invalid_args (args : Args) : Prop :=
  truthy (imagename args) = false ∨ truthy (package args) = false
  ∨ ∃ p, package args = Some p ∧ package_names_of p = [].

(** The messages of the argument checks. *)
Definition input_errors : list string :=
  [ "Image recipe to test must be specified";
    "Package(s) to install must be specified via -p/--package";
    "No valid package name(s) provided" ].

(** The four ways a run of [test_image] ends: rejected arguments, a name
    without a recipe, a log directory that cannot be made, and the return
    from [build_image_task]. *)
Inductive exits (w : World) (args : Args) (config : Config) : M Z → Prop :=
| exit_invalid msg :
    invalid_args args →
    exits w args config ([], inl (DevtoolError msg))
| exit_unresolved image p e :
    imagename args = Some image → package args = Some p →
    outcome (_collect_install_packages w (package_names_of p)) = inl e →
    exits w args config
      (SetupTinfoil
         :: trace (_collect_install_packages w (package_names_of p))
         ++ [TinfoilShutdown],
       inl e)
| exit_logdir image p install_pkgs exc :
    imagename args = Some image → package args = Some p →
    outcome (_collect_install_packages w (package_names_of p))
      = inr install_pkgs →
    outcome (makedirs w (logdir_of config) true) = inl exc →
    exits w args config
      (SetupTinfoil
         :: trace (_collect_install_packages w (package_names_of p))
         ++ [TinfoilShutdown; Makedirs (logdir_of config) true],
       inl (logdir_error (logdir_of config) exc))
| exit_dispatched image p install_pkgs :
    imagename args = Some image → package args = Some p →
    outcome (_collect_install_packages w (package_names_of p))
      = inr install_pkgs →
    outcome (makedirs w (logdir_of config) true) = inr tt →
    let logdir := logdir_of config in
    let overlay := extra_append logdir (pkg_append_of install_pkgs) in
    let result := fst (build_image_task w image "testimage" overlay) in
    exits w args config
      (SetupTinfoil
         :: trace (_collect_install_packages w (package_names_of p))
         ++ [TinfoilShutdown; Makedirs logdir true;
             building_log image install_pkgs;
             BuildImageTask image None "testimage" overlay]
         ++ (if (result =? 0)%Z then [completion_log logdir] else []),
       inr result).

(** ** Reading the overlay and the log *)

(** The variable (with its flag) that a statement of the overlay acts on:
    the text before the first space. *)
Fixpoint stmt_key (stmt : string) : string :=
  match stmt with
  | EmptyString => EmptyString
  | String c rest =>
      if Ascii.eqb c " " then EmptyString else String c (stmt_key rest)
  end.

(** A statement that acts on the [depends] flag of a task. *)
Definition is_depends (stmt : string) : bool :=
  PyStr.endswith (stmt_key stmt) "[depends]".

(** The statement that makes [do_testimage] depend on the completed
    image. *)
Definition depends_stmt : string :=
  "do_testimage[depends] += " +:+ PyStr.dq +:+ " ${PN}:do_image_complete"
  +:+ PyStr.dq.

(** The log record written after a build that returned zero. *)
Definition is_completion_log (ev : event) : bool :=
  match ev with
  | Log INFO fmt _ => String.eqb fmt "Testimage completed. Logs are in %s"
  | _ => false
  end.

(** ** Decidable equality of events *)

#[global] Instance level_eq_dec : EqDecision level.
Proof. solve_decision. Defined.

#[global] Instance exn_eq_dec : EqDecision exn.
Proof. solve_decision. Defined.

#[global] Instance event_eq_dec : EqDecision event.
Proof. solve_decision. Defined.

(** ** Shapes of names *)

(** The characters of a string, in order. *)
Definition chars (s : string) : list ascii := String.list_ascii_of_string s.

(** No comma in the string. *)
Definition comma_free (s : string) : Prop := ","%char ∉ chars s.

(** No whitespace in the string. *)
Definition space_free (s : string) : Prop :=
  Forall (λ c, PyStr.isspace c = false) (chars s).

(** No whitespace at either end: [s.strip() == s]. *)
Definition stripped (s : string) : Prop := PyStr.strip s = s.

(** A name as [test_image] hands it to the resolver. *)
Definition clean_name (n : string) : Prop :=
  n ≠ "" ∧ stripped n ∧ comma_free n.

(** A word of a whitespace-separated list. *)
Definition token (n : string) : Prop := n ≠ "" ∧ space_free n.

(** ** The log records of the resolver *)

(** The record of a test variant that was added. *)
Definition is_including_log (ev : event) : bool :=
  match ev with
  | Log INFO fmt _ => String.eqb fmt "Including ptest package %s"
  | _ => false
  end.

(** The record of a name without a test variant. *)
Definition is_missing_log (ev : event) : bool :=
  match ev with
  | Log DEBUG fmt _ => String.eqb fmt "No ptest package found for %s"
  | _ => false
  end.

(** ** The events after the tinfoil session *)

(** The events of [test_image] once tinfoil is shut down: the creation of
    the log directory, the call of [build_image_task] and the two records
    around it. *)
Definition after_session_event (ev : event) : Prop :=
  match ev with
  | Makedirs _ _ => True
  | BuildImageTask _ _ _ _ => True
  | Log INFO fmt _ =>
      fmt = "Building and testing image %s with packages: %s"
      ∨ fmt = "Testimage completed. Logs are in %s"
  | _ => False
  end.

(** A call of [build_image_task]. *)
Definition is_dispatch (ev : event) : bool :=
  match ev with
  | BuildImageTask _ _ _ _ => true
  | _ => false
  end.

(** A recipe that sets no variable, and a world in which every name has
    that recipe. *)
Definition bare_rd : RecipeData := {| getVar := fun _ => None |}.

Definition bare_world : World :=
  {| parse_recipe := fun _ => Some bare_rd;
     mkdir := fun _ => None;
     isdir := fun _ => false;
     build_image_task := fun _ _ _ => (0%Z, None) |}.

(** * Properties *)

(** ** Python strings on examples *)

Example split_sep_ex :
  PyStr.split_sep "," "bash, ,zlib ,," = ["bash"; " "; "zlib "; ""; ""].
Proof. reflexivity. Qed.

Example split_ex :
  PyStr.split "  bash bash-ptest   bash-dev " = ["bash"; "bash-ptest"; "bash-dev"].
Proof. reflexivity. Qed.

Example strip_ex : PyStr.strip "  a b  " = "a b".
Proof. reflexivity. Qed.

Example sorted_ex :
  PyStr.sorted (PyStr.set ["zlib"; "bash"; "zlib"; "bash-ptest"; "Bash"])
  = ["Bash"; "bash"; "bash-ptest"; "zlib"].
Proof. vm_compute. reflexivity. Qed.

(** ** The order on strings *)

Section str_order.

Lemma str_compare_refl a : String.compare a a = Eq.
Proof.
  pose proof (String.compare_antisym a a) as H.
  destruct (String.compare a a); simpl in H; congruence.
Qed.

Lemma ascii_compare_lt_trans a b c :
  Ascii.compare a b = Lt → Ascii.compare b c = Lt → Ascii.compare a c = Lt.
Proof.
  unfold Ascii.compare. rewrite !N.compare_lt_iff. lia.
Qed.

Lemma str_compare_lt_trans a b c :
  String.compare a b = Lt → String.compare b c = Lt →
  String.compare a c = Lt.
Proof.
  revert b c. induction a as [|x a IH]; intros [|y b] [|z c]; simpl;
    try done.
  destruct (Ascii.compare x y) eqn:Hxy; try done;
    destruct (Ascii.compare y z) eqn:Hyz; try done; intros Hab Hbc.
  - apply Ascii.compare_eq_iff in Hxy, Hyz. subst.
    replace (Ascii.compare z z) with Eq; [by eapply IH|].
    symmetry. apply N.compare_refl.
  - apply Ascii.compare_eq_iff in Hxy. subst. by rewrite Hyz.
  - apply Ascii.compare_eq_iff in Hyz. subst. by rewrite Hxy.
  - by rewrite (ascii_compare_lt_trans x y z).
Qed.

Lemma str_lt_irrefl a : ¬ PyStr.lt a a.
Proof. unfold PyStr.lt, String.ltb. by rewrite str_compare_refl. Qed.

Lemma str_le_iff a b : PyStr.le a b ↔ a = b ∨ PyStr.lt a b.
Proof.
  unfold PyStr.le, PyStr.lt, String.leb, String.ltb. split.
  - destruct (String.compare a b) eqn:Hc; try done; [|by right].
    left. by apply String.compare_eq_iff.
  - intros [->|H]; [by rewrite str_compare_refl|].
    by destruct (String.compare a b).
Qed.

Lemma str_lt_iff a b : PyStr.lt a b ↔ PyStr.le a b ∧ a ≠ b.
Proof.
  rewrite str_le_iff. split.
  - intros H. split; [by right|]. intros ->. by apply str_lt_irrefl in H.
  - intros [[->|H] Hne]; done.
Qed.

#[global] Instance str_lt_trans : Transitive PyStr.lt.
Proof.
  intros a b c. unfold PyStr.lt, String.ltb.
  destruct (String.compare a b) eqn:Hab; try done.
  destruct (String.compare b c) eqn:Hbc; try done.
  by rewrite (str_compare_lt_trans a b c).
Qed.

#[global] Instance str_le_trans : Transitive PyStr.le.
Proof.
  intros a b c. rewrite !str_le_iff.
  intros [->|Hab] [->|Hbc]; auto. right. by trans b.
Qed.

#[global] Instance str_le_total : Total PyStr.le.
Proof. intros a b. apply String.leb_total. Qed.

#[global] Instance str_le_antisym : AntiSymm (=) PyStr.le.
Proof. intros a b. apply String.leb_antisym. Qed.

(** A duplicate-free list in ascending order is in strictly ascending
    order. *)
Lemma StronglySorted_le_lt (l : list string) :
  NoDup l → StronglySorted PyStr.le l → StronglySorted PyStr.lt l.
Proof.
  induction 2 as [|x l Hl IH Hx]; [constructor|].
  apply NoDup_cons in H as [Hnotin Hnd].
  constructor; [by apply IH|].
  rewrite Forall_forall in Hx |- *. intros y Hy.
  apply str_lt_iff. split; [by apply Hx|]. by intros ->.
Qed.

End str_order.

(** ** [sorted(set(l))] *)

Section sorted_set.

Lemma sorted_set_elem_of (l : list string) x :
  x ∈ PyStr.sorted (PyStr.set l) ↔ x ∈ l.
Proof.
  unfold PyStr.sorted, PyStr.set.
  rewrite merge_sort_Permutation, elem_of_elements.
  apply elem_of_list_to_set.
Qed.

Lemma sorted_set_NoDup (l : list string) :
  NoDup (PyStr.sorted (PyStr.set l)).
Proof.
  unfold PyStr.sorted. rewrite merge_sort_Permutation.
  apply NoDup_elements.
Qed.

Lemma sorted_set_ascending (l : list string) :
  StronglySorted PyStr.lt (PyStr.sorted (PyStr.set l)).
Proof.
  apply StronglySorted_le_lt; [apply sorted_set_NoDup|].
  apply StronglySorted_merge_sort; apply _.
Qed.

(** The result does not depend on the order in which the set hands out
    its elements, nor on the sorting algorithm: it is the only ascending
    arrangement of the elements. *)
Lemma sorted_set_unique (l k : list string) :
  k ≡ₚ elements (PyStr.set l) → Sorted PyStr.le k →
  k = PyStr.sorted (PyStr.set l).
Proof.
  intros Hperm Hsorted. apply (Sorted_unique PyStr.le); [done| |].
  - apply Sorted_merge_sort. apply _.
  - unfold PyStr.sorted. by rewrite merge_sort_Permutation.
Qed.

End sorted_set.

(** ** The resolver *)

Section resolver.
Variable w : World.

Lemma collect_loop_cons_Some pn rd rest install :
  parse_recipe w pn = Some rd →
  collect_loop w (pn :: rest) install =
    (ParseRecipe pn :: ptest_log rd pn
       :: trace (collect_loop w rest (install ++ segment rd pn)),
     outcome (collect_loop w rest (install ++ segment rd pn))).
Proof.
  intros Hrd. unfold segment, ptest_log, packages_of.
  cbn [collect_loop call_parse_recipe emit ret bind trace outcome fst snd
       app]. rewrite Hrd.
  case_decide; cbn [logger_info logger_debug emit bind trace outcome
                    fst snd app];
    by rewrite <-?(assoc_L (++)).
Qed.

Lemma collect_loop_cons_None pn rest install :
  parse_recipe w pn = None →
  collect_loop w (pn :: rest) install =
    ([ParseRecipe pn],
     inl (DevtoolError
            ("Unable to find or parse recipe for package " +:+ pn))).
Proof.
  intros Hrd.
  cbn [collect_loop call_parse_recipe emit ret bind trace outcome fst snd
       app]. by rewrite Hrd.
Qed.

(** When every name has a recipe the loop returns the list it was given,
    extended by the segments of the names. *)
Lemma collect_loop_resolved names install :
  Forall (resolves w) names →
  outcome (collect_loop w names install)
  = inr (install ++ concat (segments w names)).
Proof.
  intros Hall. revert install.
  induction Hall as [|pn names [rd Hrd] _ IH]; intros install.
  - cbn. by rewrite (right_id_L [] (++)).
  - rewrite (collect_loop_cons_Some _ rd) by done.
    cbn [outcome snd]. rewrite IH.
    unfold segments. cbn [fmap list_fmap concat]. rewrite Hrd.
    cbn [from_option]. by rewrite (assoc_L (++)).
Qed.

(** The loop stops at the first name without a recipe: it has looked up
    the names up to that one and no other, and raises the error that
    names it. *)
Lemma collect_loop_unresolved pre pn post install :
  Forall (resolves w) pre → parse_recipe w pn = None →
  outcome (collect_loop w (pre ++ pn :: post) install)
  = inl (DevtoolError
           ("Unable to find or parse recipe for package " +:+ pn))
  ∧ parse_calls (trace (collect_loop w (pre ++ pn :: post) install))
    = pre ++ [pn].
Proof.
  intros Hall Hpn. revert install.
  induction Hall as [|x pre [rd Hrd] _ IH]; intros install.
  - cbn [app]. by rewrite collect_loop_cons_None.
  - cbn [app]. rewrite (collect_loop_cons_Some _ rd) by done.
    destruct (IH (install ++ segment rd x)) as [Ho Hc].
    cbn [outcome trace fst snd]. split; [done|].
    rewrite <-Hc. unfold parse_calls, ptest_log.
    by case_decide.
Qed.

Lemma collect_loop_events names install :
  Forall resolver_event (trace (collect_loop w names install)).
Proof.
  revert install. induction names as [|pn names IH]; intros install.
  - constructor.
  - destruct (parse_recipe w pn) as [rd|] eqn:Hrd.
    + rewrite (collect_loop_cons_Some _ rd) by done.
      cbn [trace fst]. repeat constructor; [|apply IH].
      unfold ptest_log. by case_decide.
    + rewrite collect_loop_cons_None by done. by repeat constructor.
Qed.

End resolver.

(** ** The exits of [test_image], proved *)

Lemma makedirs_run (w : World) (name : string) (exist_ok : bool) :
  trace (makedirs w name exist_ok) = [Makedirs name exist_ok].
Proof.
  unfold makedirs. cbn. destruct (mkdir w name); [|done].
  by destruct (exist_ok && isdir w name).
Qed.

Lemma test_image_exits (w : World) (args : Args) (config : Config) :
  exits w args config (test_image w args config).
Proof.
  destruct args as [[[|a image]|] [[|b p]|]]; unfold test_image;
    cbn [imagename package];
    try (apply exit_invalid; unfold invalid_args; cbn; by auto).
  destruct (package_names_of (String b p)) as [|n ns] eqn:Hnames.
  { apply exit_invalid. do 2 right. by eexists. }
  rewrite <-Hnames.
  set (args := {| imagename := _; package := _ |}).
  pose proof (makedirs_run w (logdir_of config) true) as Hmk.
  pose proof (exit_unresolved w args config (String a image) (String b p))
    as Hu.
  pose proof (exit_logdir w args config (String a image) (String b p))
    as Hl.
  pose proof (exit_dispatched w args config (String a image) (String b p))
    as Hd.
  destruct (_collect_install_packages w (package_names_of (String b p)))
    as [tc [e|install_pkgs]].
  - by apply (Hu e).
  - specialize (Hl install_pkgs). specialize (Hd install_pkgs).
    destruct (makedirs w (logdir_of config) true) as [tm [exc|[]]];
      cbn in Hmk; subst tm.
    + specialize (Hl exc eq_refl eq_refl eq_refl eq_refl).
      cbn -[logdir_of] in Hl |- *. by rewrite <-(assoc_L (++)).
    + specialize (Hd eq_refl eq_refl eq_refl eq_refl).
      cbn -[logdir_of extra_append pkg_append_of Z.eqb] in Hd |- *.
      destruct (build_image_task w _ _ _) as [result outputdir].
      cbn -[logdir_of extra_append pkg_append_of Z.eqb] in Hd |- *.
      destruct (result =? 0)%Z;
        cbn -[logdir_of extra_append pkg_append_of] in Hd |- *;
        by rewrite <-?(assoc_L (++)).
Qed.

(** ** The install list *)

Lemma collect_events (w : World) (package_names : list string) :
  Forall resolver_event (trace (_collect_install_packages w package_names)).
Proof. apply collect_loop_events. Qed.

Lemma collect_resolved (w : World) (package_names : list string) :
  Forall (resolves w) package_names →
  outcome (_collect_install_packages w package_names)
  = inr (concat (segments w package_names)).
Proof. intros H. unfold _collect_install_packages. by rewrite collect_loop_resolved. Qed.

(** Lists that each start with the matching name, put end to end, keep the
    names in their order. *)
Lemma concat_heads_sublist (names : list string) (segs : list (list string)) :
  Forall2 (λ pn seg, ∃ tl, seg = pn :: tl) names segs →
  names `sublist_of` concat segs.
Proof.
  induction 1 as [|pn seg names segs [tl ->] _ IH]; cbn; [constructor|].
  constructor. by apply sublist_inserts_l.
Qed.

(** C1. For every requested name that has a recipe, the resolver adds the
    name followed by its [-ptest] variant when that variant is one of the
    whitespace-separated tokens of the recipe's [PACKAGES], and the name
    alone when it is not; a missing variant raises nothing and the loop
    goes on to the next name. *)
Theorem ptest_added_iff_listed (w : World) (package_names : list string) :
  Forall (resolves w) package_names →
  ∃ segs,
    outcome (_collect_install_packages w package_names) = inr (concat segs)
    ∧ Forall2
        (λ pn seg, ∃ rd,
           parse_recipe w pn = Some rd
           ∧ (ptest_listed rd pn ∧ seg = [pn; pn +:+ "-ptest"]
              ∨ ¬ ptest_listed rd pn ∧ seg = [pn]))
        package_names segs.
Proof.
  intros Hall. exists (segments w package_names).
  split; [by apply collect_resolved|].
  unfold segments. apply Forall2_fmap_r, Forall_Forall2_diag.
  eapply Forall_impl; [exact Hall|].
  intros pn [rd Hrd]. exists rd. split; [done|].
  rewrite Hrd. unfold segment, ptest_listed. cbn. case_decide; auto.
Qed.

Lemma ptest_added_iff_listed_witness :
  ∃ segs,
    outcome (_collect_install_packages (demo_world 0) ["bash"; "zlib"])
    = inr (concat segs)
    ∧ Forall2
        (λ pn seg, ∃ rd,
           parse_recipe (demo_world 0) pn = Some rd
           ∧ (ptest_listed rd pn ∧ seg = [pn; pn +:+ "-ptest"]
              ∨ ¬ ptest_listed rd pn ∧ seg = [pn]))
        ["bash"; "zlib"] segs.
Proof.
  apply (ptest_added_iff_listed (demo_world 0) ["bash"; "zlib"]).
  repeat constructor; by eexists.
Defined.

(** C2. For a non-empty list of names that all have a recipe, the resolver
    returns a list that holds every requested name, keeps the names in the
    order of the request, and is made of one block per name: the name
    alone, or the name directly followed by its [-ptest] variant. *)
Theorem install_list_in_request_order (w : World)
    (package_names : list string) :
  package_names ≠ [] →
  Forall (resolves w) package_names →
  ∃ install,
    outcome (_collect_install_packages w package_names) = inr install
    ∧ package_names ⊆ install
    ∧ package_names `sublist_of` install
    ∧ ∃ segs,
        install = concat segs
        ∧ Forall2 (λ pn seg, seg = [pn] ∨ seg = [pn; pn +:+ "-ptest"])
            package_names segs.
Proof.
  intros _ Hall. exists (concat (segments w package_names)).
  assert (Forall2 (λ pn seg, seg = [pn] ∨ seg = [pn; pn +:+ "-ptest"])
            package_names (segments w package_names)) as Hsegs.
  { unfold segments. apply Forall2_fmap_r, Forall_Forall2_diag.
    eapply Forall_impl; [exact Hall|].
    intros pn [rd Hrd]. cbn. rewrite Hrd. unfold segment. cbn.
    case_decide; auto. }
  assert (package_names `sublist_of` concat (segments w package_names))
    as Hsub.
  { apply concat_heads_sublist. eapply Forall2_impl; [exact Hsegs|].
    intros pn seg [->| ->]; by eexists. }
  split; [by apply collect_resolved|].
  split; [by apply sublist_subseteq|].
  split; [done|]. by exists (segments w package_names).
Qed.

Lemma install_list_in_request_order_witness :
  ∃ install,
    outcome (_collect_install_packages (demo_world 0)
               ["zlib"; "bash"; "zlib"]) = inr install
    ∧ ["zlib"; "bash"; "zlib"] ⊆ install
    ∧ ["zlib"; "bash"; "zlib"] `sublist_of` install
    ∧ ∃ segs,
        install = concat segs
        ∧ Forall2 (λ pn seg, seg = [pn] ∨ seg = [pn; pn +:+ "-ptest"])
            ["zlib"; "bash"; "zlib"] segs.
Proof.
  apply (install_list_in_request_order (demo_world 0)
           ["zlib"; "bash"; "zlib"]).
  - discriminate.
  - repeat constructor; by eexists.
Defined.

(** Scenario 1: [bash-ptest] is one of the packages of [bash]. *)
Example collect_bash :
  outcome (_collect_install_packages (demo_world 0) ["bash"])
  = inr ["bash"; "bash-ptest"].
Proof. reflexivity. Qed.

Example collect_bash_zlib :
  outcome (_collect_install_packages (demo_world 0) ["zlib"; "bash"; "zlib"])
  = inr ["zlib"; "bash"; "bash-ptest"; "zlib"].
Proof. reflexivity. Qed.

(** ** Runs that reach [build_image_task] *)

(** An event that the resolver never emits is not in its trace. *)
Lemma not_resolver_event (w : World) (names : list string) (ev : event) :
  ¬ resolver_event ev → ev ∉ trace (_collect_install_packages w names).
Proof.
  intros Hev Hin. apply Hev.
  by apply (proj1 (Forall_forall _ _) (collect_events w names)).
Qed.

Ltac absurd_resolver H :=
  exfalso; revert H; apply not_resolver_event; cbn; tauto.

(** A run whose trace holds a call of [build_image_task] left through the
    last exit; the call is the only one and its arguments are those built
    by [test_image]. *)
Lemma dispatch_inv (w : World) (args : Args) (config : Config)
    (image : string) (add : option (list string)) (task : string)
    (overlay : list string) :
  BuildImageTask image add task overlay ∈ trace (test_image w args config) →
  ∃ p install_pkgs,
    imagename args = Some image ∧ package args = Some p
    ∧ add = None ∧ task = "testimage"
    ∧ outcome (_collect_install_packages w (package_names_of p))
      = inr install_pkgs
    ∧ outcome (makedirs w (logdir_of config) true) = inr tt
    ∧ overlay = extra_append (logdir_of config) (pkg_append_of install_pkgs)
    ∧ test_image w args config
      = (SetupTinfoil
           :: trace (_collect_install_packages w (package_names_of p))
           ++ [TinfoilShutdown; Makedirs (logdir_of config) true;
               building_log image install_pkgs;
               BuildImageTask image None "testimage" overlay]
           ++ (if (fst (build_image_task w image "testimage" overlay) =? 0)%Z
               then [completion_log (logdir_of config)] else []),
         inr (fst (build_image_task w image "testimage" overlay))).
Proof.
  generalize (test_image_exits w args config).
  generalize (test_image w args config). intros r Hr Hin.
  destruct Hr as [msg _|img p e _ _ _|img p install_pkgs exc _ _ _ _
                 |img p install_pkgs Himg Hp Hc Hm logdir ov result];
    cbn [trace fst] in Hin.
  - by apply elem_of_nil in Hin.
  - rewrite elem_of_cons, elem_of_app, list_elem_of_singleton in Hin.
    destruct Hin as [?|[Hin|?]]; try done.
    absurd_resolver Hin.
  - rewrite elem_of_cons, elem_of_app, !elem_of_cons, elem_of_nil in Hin.
    destruct Hin as [?|[Hin|[?|[?|[]]]]]; try done.
    absurd_resolver Hin.
  - assert (BuildImageTask image add task overlay
            = BuildImageTask img None "testimage" ov) as Heq.
    { rewrite elem_of_cons, !elem_of_app, !elem_of_cons, elem_of_nil in Hin.
      destruct Hin as [?|[Hin|[[?|[?|[?|[?|[]]]]]|Hin]]]; try done.
      - absurd_resolver Hin.
      - destruct (result =? 0)%Z; [|by apply elem_of_nil in Hin].
        by apply list_elem_of_singleton in Hin. }
    injection Heq as -> -> -> ->. by exists p, install_pkgs.
Qed.

(** ** The overlay *)

Lemma resolver_no_completion_log (t : list event) :
  Forall resolver_event t → List.filter is_completion_log t = [].
Proof.
  induction 1 as [|ev t Hev _ IH]; [done|]. cbn. rewrite IH.
  destruct ev as [| | | |[] fmt a|]; cbn in Hev |- *; try done.
  by rewrite Hev.
Qed.

(** C3. The last statement of the overlay handed to [build_image_task]
    appends to [IMAGE_INSTALL] the names of the resolved install list,
    joined by single spaces, each name once, in strictly ascending
    lexicographic order. *)
Theorem overlay_install_sorted_dedup (w : World) (args : Args)
    (config : Config) (image : string) (add : option (list string))
    (task : string) (overlay : list string) :
  BuildImageTask image add task overlay ∈ trace (test_image w args config) →
  ∃ p install_pkgs pkgs,
    package args = Some p
    ∧ outcome (_collect_install_packages w (package_names_of p))
      = inr install_pkgs
    ∧ last overlay
      = Some ("IMAGE_INSTALL:append = " +:+ PyStr.dq +:+ " "
              +:+ PyStr.join " " pkgs +:+ PyStr.dq)
    ∧ (∀ x, x ∈ pkgs ↔ x ∈ install_pkgs)
    ∧ NoDup pkgs
    ∧ StronglySorted PyStr.lt pkgs.
Proof.
  intros Hin.
  destruct (dispatch_inv _ _ _ _ _ _ _ Hin)
    as (p & install_pkgs & _ & Hp & _ & _ & Hc & _ & -> & _).
  exists p, install_pkgs, (PyStr.sorted (PyStr.set install_pkgs)).
  split; [done|]. split; [done|]. split; [reflexivity|].
  split; [apply sorted_set_elem_of|].
  split; [apply sorted_set_NoDup|apply sorted_set_ascending].
Qed.

Lemma overlay_install_sorted_dedup_witness :
  ∃ p install_pkgs pkgs,
    package (demo_args "core-image-minimal" "zlib, bash,zlib") = Some p
    ∧ outcome (_collect_install_packages (demo_world 0) (package_names_of p))
      = inr install_pkgs
    ∧ last (extra_append "/ws/testimage-logs" "bash bash-ptest zlib")
      = Some ("IMAGE_INSTALL:append = " +:+ PyStr.dq +:+ " "
              +:+ PyStr.join " " pkgs +:+ PyStr.dq)
    ∧ (∀ x, x ∈ pkgs ↔ x ∈ install_pkgs)
    ∧ NoDup pkgs
    ∧ StronglySorted PyStr.lt pkgs.
Proof.
  apply (overlay_install_sorted_dedup (demo_world 0)
           (demo_args "core-image-minimal" "zlib, bash,zlib") demo_config
           "core-image-minimal" None "testimage").
  apply (bool_decide_unpack _). vm_compute. exact I.
Defined.

(** Scenario 2: a name asked for twice is installed once. *)
Example overlay_bash_twice :
  last (trace (test_image (demo_world 1)
                 (demo_args "core-image-minimal" "bash,bash") demo_config))
  = Some (BuildImageTask "core-image-minimal" None "testimage"
            (extra_append "/ws/testimage-logs" "bash bash-ptest")).
Proof. vm_compute. reflexivity. Qed.

(** C5. The overlay handed to [build_image_task] holds exactly one
    statement on a [depends] flag, whatever the image name and the
    packages: the one that makes [do_testimage] depend on
    [do_image_complete] of the same recipe. *)
Theorem overlay_one_depends (w : World) (args : Args) (config : Config)
    (image : string) (add : option (list string)) (task : string)
    (overlay : list string) :
  BuildImageTask image add task overlay ∈ trace (test_image w args config) →
  List.filter is_depends overlay = [depends_stmt]
  ∧ count_occ String.string_dec overlay depends_stmt = 1.
Proof.
  intros Hin.
  destruct (dispatch_inv _ _ _ _ _ _ _ Hin)
    as (p & install_pkgs & _ & _ & _ & _ & _ & _ & -> & _).
  split; [reflexivity|].
  unfold extra_append, depends_stmt.
  repeat (rewrite count_occ_cons_neq by (cbn; discriminate)).
  rewrite count_occ_cons_eq by reflexivity.
  repeat (rewrite count_occ_cons_neq by (cbn; discriminate)).
  reflexivity.
Qed.

Lemma overlay_one_depends_witness :
  List.filter is_depends (extra_append "/ws/testimage-logs" "bash bash-ptest")
  = [depends_stmt]
  ∧ count_occ String.string_dec
      (extra_append "/ws/testimage-logs" "bash bash-ptest") depends_stmt = 1.
Proof.
  apply (overlay_one_depends (demo_world 1)
           (demo_args "core-image-minimal" "bash") demo_config
           "core-image-minimal" None "testimage").
  apply (bool_decide_unpack _). vm_compute. exact I.
Defined.

(** C8. A run that calls [build_image_task] returns the first component of
    its answer as it is; when that is zero the run writes the record of the
    log directory exactly once, and otherwise not at all. *)
Theorem result_code_returned (w : World) (args : Args) (config : Config)
    (image : string) (add : option (list string)) (task : string)
    (overlay : list string) :
  BuildImageTask image add task overlay ∈ trace (test_image w args config) →
  let result := fst (build_image_task w image task overlay) in
  outcome (test_image w args config) = inr result
  ∧ List.filter is_completion_log (trace (test_image w args config))
    = if (result =? 0)%Z then [completion_log (logdir_of config)] else [].
Proof.
  intros Hin.
  destruct (dispatch_inv _ _ _ _ _ _ _ Hin)
    as (p & install_pkgs & _ & _ & _ & -> & _ & _ & _ & ->).
  cbn [outcome trace fst snd]. split; [done|].
  cbn [List.filter is_completion_log].
  rewrite !List.filter_app, resolver_no_completion_log
    by apply collect_events.
  cbn -[Z.eqb]. by destruct (_ =? 0)%Z.
Qed.

Lemma result_code_returned_witness :
  let w := demo_world 0 in
  let args := demo_args "core-image-minimal" "bash" in
  let result :=
    fst (build_image_task w "core-image-minimal" "testimage"
           (extra_append "/ws/testimage-logs" "bash bash-ptest")) in
  outcome (test_image w args demo_config) = inr result
  ∧ List.filter is_completion_log (trace (test_image w args demo_config))
    = if (result =? 0)%Z then [completion_log (logdir_of demo_config)]
      else [].
Proof.
  apply (result_code_returned (demo_world 0)
           (demo_args "core-image-minimal" "bash") demo_config
           "core-image-minimal" None "testimage").
  apply (bool_decide_unpack _). vm_compute. exact I.
Defined.

(** ** Rejected arguments *)

(** C6. When the image name is missing, the package argument is missing, or
    the package argument holds no name once split at commas and stripped,
    the run ends with one of the three [DevtoolError]s of the argument
    checks and has called none of its collaborators: no tinfoil, no recipe
    look-up, no directory creation. *)
Theorem invalid_args_fail_first (w : World) (args : Args) (config : Config) :
  invalid_args args →
  trace (test_image w args config) = []
  ∧ ∃ msg,
      outcome (test_image w args config) = inl (DevtoolError msg)
      ∧ msg ∈ input_errors.
Proof.
  unfold input_errors.
  destruct args as [[[|a image]|] [[|b p]|]]; unfold test_image;
    cbn [imagename package]; intros Hinv;
    try (split; [done|]; eexists; split; [done|];
         rewrite !elem_of_cons; tauto).
  destruct Hinv as [H|[H|(p' & [= <-] & Hnames)]]; try done.
  rewrite Hnames. split; [done|]. eexists. split; [done|].
  rewrite !elem_of_cons; tauto.
Qed.

Lemma invalid_args_fail_first_witness :
  trace (test_image (demo_world 0)
           (demo_args "core-image-minimal" "  , ,") demo_config) = []
  ∧ ∃ msg,
      outcome (test_image (demo_world 0)
                 (demo_args "core-image-minimal" "  , ,") demo_config)
      = inl (DevtoolError msg)
      ∧ msg ∈ input_errors.
Proof.
  apply (invalid_args_fail_first (demo_world 0)
           (demo_args "core-image-minimal" "  , ,") demo_config).
  right. right. exists "  , ,". split; reflexivity.
Defined.

Example no_package_names :
  test_image (demo_world 0) (demo_args "core-image-minimal" "  , ,")
    demo_config
  = ([], inl (DevtoolError "No valid package name(s) provided")).
Proof. reflexivity. Qed.

Example empty_package_argument :
  test_image (demo_world 0) (demo_args "core-image-minimal" "") demo_config
  = ([], inl (DevtoolError
                "Package(s) to install must be specified via -p/--package")).
Proof. reflexivity. Qed.

(** C10. When both the image name and the package argument are missing the
    run raises the error of the image name: that check comes first. *)
Theorem image_check_first (w : World) (args : Args) (config : Config) :
  truthy (imagename args) = false →
  truthy (package args) = false →
  test_image w args config
  = ([], inl (DevtoolError "Image recipe to test must be specified")).
Proof.
  destruct args as [[[|a image]|] pk]; unfold test_image;
    cbn [imagename package]; by intros.
Qed.

Lemma image_check_first_witness :
  test_image (demo_world 0) {| imagename := Some ""; package := None |}
    demo_config
  = ([], inl (DevtoolError "Image recipe to test must be specified")).
Proof.
  apply (image_check_first (demo_world 0)
           {| imagename := Some ""; package := None |} demo_config);
    reflexivity.
Defined.

(** ** Names without a recipe *)

Lemma parse_calls_frame (t : list event) :
  parse_calls (SetupTinfoil :: t ++ [TinfoilShutdown]) = parse_calls t.
Proof.
  unfold parse_calls. cbn. rewrite omap_app. cbn.
  apply (right_id_L [] (++)).
Qed.

(** C4. When one of the requested names has no recipe, the run stops at the
    first such name: it has looked up the names up to that one and no
    other, raises the [DevtoolError] whose message is
    [Unable to find or parse recipe for package] followed by that name,
    shuts tinfoil down, and neither creates the log directory nor calls
    [build_image_task]. *)
Theorem unresolved_package_aborts (w : World) (args : Args) (config : Config)
    (image p : string) (pre : list string) (pn : string)
    (post : list string) :
  imagename args = Some image → image ≠ "" →
  package args = Some p →
  package_names_of p = pre ++ pn :: post →
  Forall (resolves w) pre →
  parse_recipe w pn = None →
  outcome (test_image w args config)
  = inl (DevtoolError ("Unable to find or parse recipe for package " +:+ pn))
  ∧ parse_calls (trace (test_image w args config)) = pre ++ [pn]
  ∧ trace (test_image w args config)
    = SetupTinfoil
        :: trace (_collect_install_packages w (package_names_of p))
        ++ [TinfoilShutdown]
  ∧ (∀ name exist_ok,
       Makedirs name exist_ok ∉ trace (test_image w args config))
  ∧ (∀ img add task overlay,
       BuildImageTask img add task overlay
       ∉ trace (test_image w args config)).
Proof.
  intros Himg Hne Hp Hnames Hpre Hpn.
  destruct (collect_loop_unresolved w pre pn post [] Hpre Hpn)
    as [Hout Hcalls].
  rewrite <-Hnames in Hout, Hcalls.
  fold (_collect_install_packages w (package_names_of p)) in Hout, Hcalls.
  generalize (test_image_exits w args config).
  generalize (test_image w args config). intros r Hr.
  destruct Hr as [msg Hinv|img p' e Himg' Hp' Hc
                 |img p' install_pkgs exc _ Hp' Hc _
                 |img p' install_pkgs _ Hp' Hc _ logdir ov result].
  - exfalso. destruct Hinv as [H|[H|(p' & Hp' & Hn)]].
    + rewrite Himg in H. by destruct image.
    + rewrite Hp in H. destruct p; [|done].
      by destruct pre.
    + rewrite Hp in Hp'. injection Hp' as <-. rewrite Hnames in Hn.
      by destruct pre.
  - rewrite Hp in Hp'. injection Hp' as <-.
    rewrite Hout in Hc. injection Hc as <-.
    cbn [outcome trace fst snd]. split; [done|].
    split.
    { by rewrite parse_calls_frame. }
    split; [done|]. split.
    + intros name exist_ok Hin.
      rewrite elem_of_cons, elem_of_app, list_elem_of_singleton in Hin.
      destruct Hin as [?|[Hin|?]]; try done. absurd_resolver Hin.
    + intros i a t o Hin.
      rewrite elem_of_cons, elem_of_app, list_elem_of_singleton in Hin.
      destruct Hin as [?|[Hin|?]]; try done. absurd_resolver Hin.
  - rewrite Hp in Hp'. injection Hp' as <-. by rewrite Hout in Hc.
  - rewrite Hp in Hp'. injection Hp' as <-. by rewrite Hout in Hc.
Qed.

Lemma unresolved_package_aborts_witness :
  let w := demo_world 0 in
  let args := demo_args "core-image-minimal" "bash, nonexistent-pkg,zlib" in
  outcome (test_image w args demo_config)
  = inl (DevtoolError ("Unable to find or parse recipe for package "
                       +:+ "nonexistent-pkg"))
  ∧ parse_calls (trace (test_image w args demo_config))
    = ["bash"] ++ ["nonexistent-pkg"]
  ∧ trace (test_image w args demo_config)
    = SetupTinfoil
        :: trace (_collect_install_packages w
                    (package_names_of "bash, nonexistent-pkg,zlib"))
        ++ [TinfoilShutdown]
  ∧ (∀ name exist_ok,
       Makedirs name exist_ok ∉ trace (test_image w args demo_config))
  ∧ (∀ img add task overlay,
       BuildImageTask img add task overlay
       ∉ trace (test_image w args demo_config)).
Proof.
  apply (unresolved_package_aborts (demo_world 0)
           (demo_args "core-image-minimal" "bash, nonexistent-pkg,zlib")
           demo_config "core-image-minimal" "bash, nonexistent-pkg,zlib"
           ["bash"] "nonexistent-pkg" ["zlib"]).
  - reflexivity.
  - discriminate.
  - reflexivity.
  - reflexivity.
  - repeat constructor; by eexists.
  - reflexivity.
Defined.

(** The message of the error starts with a capital letter: for the package
    argument [nonexistent-pkg] the run does not fail with the message
    [unable to find or parse recipe for package nonexistent-pkg]. *)
Lemma unresolved_message_counterexample :
  outcome (test_image (demo_world 0)
             (demo_args "core-image-minimal" "nonexistent-pkg") demo_config)
  = inl (DevtoolError
           "Unable to find or parse recipe for package nonexistent-pkg")
  ∧ ¬ ∃ e,
      outcome (test_image (demo_world 0)
                 (demo_args "core-image-minimal" "nonexistent-pkg")
                 demo_config) = inl e
      ∧ exn_str e
        = "unable to find or parse recipe for package nonexistent-pkg".
Proof.
  split; [reflexivity|]. intros (e & [= <-] & Hmsg). discriminate Hmsg.
Qed.

(** ** The tinfoil handle *)

(** C7. A run that sets tinfoil up shuts it down exactly once, right after
    the resolver and before anything else, whether the resolver returned
    or raised; when it raised, the shutdown is the last event of the run
    and the error of the resolver is the error of the run. *)
Theorem tinfoil_shutdown_once (w : World) (args : Args) (config : Config) :
  SetupTinfoil ∈ trace (test_image w args config) →
  ∃ p rest,
    package args = Some p
    ∧ trace (test_image w args config)
      = SetupTinfoil
          :: trace (_collect_install_packages w (package_names_of p))
          ++ TinfoilShutdown :: rest
    ∧ (TinfoilShutdown ∉ trace (_collect_install_packages w
                                  (package_names_of p)))
    ∧ (TinfoilShutdown ∉ rest)
    ∧ count_occ event_eq_dec (trace (test_image w args config))
        TinfoilShutdown = 1
    ∧ (∀ e,
         outcome (_collect_install_packages w (package_names_of p)) = inl e →
         rest = [] ∧ outcome (test_image w args config) = inl e).
Proof.
  generalize (test_image_exits w args config).
  generalize (test_image w args config). intros r Hr Hin.
  assert (∀ p, TinfoilShutdown
               ∉ trace (_collect_install_packages w (package_names_of p)))
    as Hnone.
  { intros p. apply not_resolver_event. cbn. tauto. }
  assert (∀ p rest,
            TinfoilShutdown ∉ rest →
            count_occ event_eq_dec
              (SetupTinfoil
                 :: trace (_collect_install_packages w (package_names_of p))
                 ++ TinfoilShutdown :: rest) TinfoilShutdown = 1) as Hcount.
  { intros p rest Hrest.
    rewrite count_occ_cons_neq by done.
    rewrite count_occ_app, count_occ_cons_eq by done.
    rewrite (proj1 (count_occ_not_In _ _ _)),
            (proj1 (count_occ_not_In _ _ _)); [done| |].
    - by rewrite <-list_elem_of_In.
    - rewrite <-list_elem_of_In. apply Hnone. }
  destruct Hr as [msg _|img p e _ Hp Hc
                 |img p install_pkgs exc _ Hp Hc _
                 |img p install_pkgs _ Hp Hc _ logdir ov result];
    cbn [trace outcome fst snd] in Hin |- *.
  - by apply elem_of_nil in Hin.
  - exists p, []. repeat split; try done.
    + apply not_elem_of_nil.
    + apply Hcount, not_elem_of_nil.
    + congruence.
  - exists p, [Makedirs (logdir_of config) true].
    assert (TinfoilShutdown ∉ [Makedirs (logdir_of config) true]) as Hrest.
    { by rewrite list_elem_of_singleton. }
    repeat split; try done; [by apply Hcount|congruence..].
  - exists p, ([Makedirs logdir true; building_log img install_pkgs;
                BuildImageTask img None "testimage" ov]
               ++ (if (result =? 0)%Z then [completion_log logdir] else [])).
    assert (TinfoilShutdown
            ∉ [Makedirs logdir true; building_log img install_pkgs;
               BuildImageTask img None "testimage" ov]
              ++ (if (result =? 0)%Z then [completion_log logdir] else []))
      as Hrest.
    { rewrite not_elem_of_app, !not_elem_of_cons. repeat split; try done.
      - apply not_elem_of_nil.
      - destruct (result =? 0)%Z; [|apply not_elem_of_nil].
        by rewrite list_elem_of_singleton. }
    repeat split; try done; [by apply Hcount|congruence..].
Qed.

Lemma tinfoil_shutdown_once_witness :
  let w := demo_world 0 in
  let args := demo_args "core-image-minimal" "bash, nonexistent-pkg" in
  ∃ p rest,
    package args = Some p
    ∧ trace (test_image w args demo_config)
      = SetupTinfoil
          :: trace (_collect_install_packages w (package_names_of p))
          ++ TinfoilShutdown :: rest
    ∧ (TinfoilShutdown ∉ trace (_collect_install_packages w
                                  (package_names_of p)))
    ∧ (TinfoilShutdown ∉ rest)
    ∧ count_occ event_eq_dec (trace (test_image w args demo_config))
        TinfoilShutdown = 1
    ∧ (∀ e,
         outcome (_collect_install_packages w (package_names_of p)) = inl e →
         rest = [] ∧ outcome (test_image w args demo_config) = inl e).
Proof.
  apply (tinfoil_shutdown_once (demo_world 0)
           (demo_args "core-image-minimal" "bash, nonexistent-pkg")
           demo_config).
  apply (bool_decide_unpack _). vm_compute. exact I.
Defined.

(** ** The log directory *)

(** A directory that is already there makes [os.makedirs] with [exist_ok]
    succeed, whatever the creation itself answered. *)
Lemma makedirs_existing (w : World) (name : string) :
  isdir w name = true → outcome (makedirs w name true) = inr tt.
Proof.
  intros Hdir. unfold makedirs. cbn. destruct (mkdir w name); [|done].
  by rewrite Hdir.
Qed.

(** C9. A run that comes to create the log directory asks for it with
    [exist_ok].  When the creation raises, the run raises the
    [DevtoolError] whose message names the directory and ends with the text
    of the cause, and [build_image_task] is not called.  When the directory
    is already there the creation succeeds and the run goes on to call
    [build_image_task]. *)
Theorem logdir_failure_wrapped (w : World) (args : Args) (config : Config)
    (name : string) (exist_ok : bool) :
  Makedirs name exist_ok ∈ trace (test_image w args config) →
  name = logdir_of config ∧ exist_ok = true
  ∧ (∀ exc,
       outcome (makedirs w name exist_ok) = inl exc →
       outcome (test_image w args config)
       = inl (DevtoolError ("Failed to create test logs directory " +:+ name
                            +:+ ": " +:+ exn_str exc))
       ∧ ∀ img add task overlay,
           BuildImageTask img add task overlay
           ∉ trace (test_image w args config))
  ∧ (isdir w name = true →
     outcome (makedirs w name exist_ok) = inr tt
     ∧ ∃ img overlay,
         BuildImageTask img None "testimage" overlay
         ∈ trace (test_image w args config)).
Proof.
  generalize (test_image_exits w args config).
  generalize (test_image w args config). intros r Hr Hin.
  destruct Hr as [msg _|img p e _ _ _
                 |img p install_pkgs exc _ _ _ Hm
                 |img p install_pkgs _ _ _ Hm logdir ov result];
    cbn [trace outcome fst snd] in Hin |- *.
  - by apply elem_of_nil in Hin.
  - rewrite elem_of_cons, elem_of_app, list_elem_of_singleton in Hin.
    destruct Hin as [?|[Hin|?]]; try done. absurd_resolver Hin.
  - assert (Makedirs name exist_ok = Makedirs (logdir_of config) true)
      as [= -> ->].
    { rewrite elem_of_cons, elem_of_app, !elem_of_cons, elem_of_nil in Hin.
      destruct Hin as [?|[Hin|[?|[?|[]]]]]; try done. absurd_resolver Hin. }
    split; [done|]. split; [done|]. split.
    + intros exc' Hexc. rewrite Hm in Hexc. injection Hexc as <-.
      split; [done|]. intros i a t o Hin'.
      rewrite elem_of_cons, elem_of_app, !elem_of_cons, elem_of_nil in Hin'.
      destruct Hin' as [?|[Hin'|[?|[?|[]]]]]; try done. absurd_resolver Hin'.
    + intros Hdir. apply makedirs_existing in Hdir. by rewrite Hm in Hdir.
  - assert (Makedirs name exist_ok = Makedirs logdir true) as [= -> ->].
    { rewrite elem_of_cons, !elem_of_app, !elem_of_cons, elem_of_nil in Hin.
      destruct Hin as [?|[Hin|[[?|[?|[?|[?|[]]]]]|Hin]]]; try done.
      - absurd_resolver Hin.
      - destruct (result =? 0)%Z; [|by apply elem_of_nil in Hin].
        by apply list_elem_of_singleton in Hin. }
    split; [done|]. split; [done|]. split.
    + intros exc Hexc. unfold logdir in Hexc. by rewrite Hm in Hexc.
    + intros _. split; [exact Hm|]. exists img, ov.
      rewrite elem_of_cons, !elem_of_app, !elem_of_cons. tauto.
Qed.

Lemma logdir_failure_wrapped_witness :
  (outcome (test_image readonly_world
              (demo_args "core-image-minimal" "bash") demo_config)
   = inl (DevtoolError
            ("Failed to create test logs directory " +:+ "/ws/testimage-logs"
             +:+ ": " +:+ "[Errno 30] Read-only file system"))
   ∧ ∀ img add task overlay,
       BuildImageTask img add task overlay
       ∉ trace (test_image readonly_world
                  (demo_args "core-image-minimal" "bash") demo_config))
  ∧ (outcome (makedirs existing_world "/ws/testimage-logs" true) = inr tt
     ∧ ∃ img overlay,
         BuildImageTask img None "testimage" overlay
         ∈ trace (test_image existing_world
                    (demo_args "core-image-minimal" "bash") demo_config)).
Proof.
  split.
  - refine (proj1 (proj2 (proj2
      (logdir_failure_wrapped readonly_world
         (demo_args "core-image-minimal" "bash") demo_config
         "/ws/testimage-logs" true _)))
      (OSError "[Errno 30] Read-only file system") _).
    + apply (bool_decide_unpack _). vm_compute. exact I.
    + reflexivity.
  - refine (proj2 (proj2 (proj2
      (logdir_failure_wrapped existing_world
         (demo_args "core-image-minimal" "bash") demo_config
         "/ws/testimage-logs" true _))) _).
    + apply (bool_decide_unpack _). vm_compute. exact I.
    + reflexivity.
Defined.

(** * Further properties *)

(** ** Splitting, stripping and joining *)

Section str_split.

Lemma str_app_nil_l s : "" +:+ s = s.
Proof. reflexivity. Qed.

Lemma str_app_cons c a b : String c a +:+ b = String c (a +:+ b).
Proof. reflexivity. Qed.

Lemma str_app_nil_r s : s +:+ "" = s.
Proof. induction s as [|c s IH]; [done|]. by rewrite str_app_cons, IH. Qed.

Lemma split_sep_nonempty sep s : PyStr.split_sep sep s ≠ [].
Proof.
  destruct s as [|c s]; cbn [PyStr.split_sep]; [done|].
  destruct (Ascii.eqb c sep); [done|].
  by destruct (PyStr.split_sep sep s).
Qed.

(** Splitting distributes over a separator. *)
Lemma split_sep_app sep a b :
  PyStr.split_sep sep (a +:+ String sep b)
  = PyStr.split_sep sep a ++ PyStr.split_sep sep b.
Proof.
  induction a as [|c a IH].
  - rewrite str_app_nil_l. cbn [PyStr.split_sep app].
    by rewrite Ascii.eqb_refl.
  - rewrite str_app_cons. cbn [PyStr.split_sep]. rewrite IH. destruct (Ascii.eqb c sep); [done|].
    pose proof (split_sep_nonempty sep a).
    by destruct (PyStr.split_sep sep a).
Qed.

Lemma split_sep_no_sep sep s q :
  q ∈ PyStr.split_sep sep s → sep ∉ chars q.
Proof.
  revert q. induction s as [|c s IH]; cbn [PyStr.split_sep]; intros q Hq.
  - apply list_elem_of_singleton in Hq as ->. apply not_elem_of_nil.
  - destruct (Ascii.eqb_spec c sep) as [->|Hne].
    + apply elem_of_cons in Hq as [->|Hq]; [apply not_elem_of_nil|by apply IH].
    + pose proof (split_sep_nonempty sep s).
      destruct (PyStr.split_sep sep s) as [|w ws]; [done|].
      apply elem_of_cons in Hq as [->|Hq].
      * cbn. apply not_elem_of_cons. split; [done|]. apply IH. by left.
      * apply IH. by right.
Qed.

Lemma split_sep_id sep s : sep ∉ chars s → PyStr.split_sep sep s = [s].
Proof.
  induction s as [|c s IH]; cbn [PyStr.split_sep chars
    String.list_ascii_of_string]; [done|].
  intros [Hne Hs]%not_elem_of_cons.
  destruct (Ascii.eqb_spec c sep) as [->|_]; [done|]. by rewrite IH.
Qed.

Lemma lstrip_chars s c : c ∈ chars (PyStr.lstrip s) → c ∈ chars s.
Proof.
  induction s as [|d s IH]; cbn; [done|].
  destruct (PyStr.isspace d); [|done]. intros H. right. by apply IH.
Qed.

Lemma rstrip_chars s c : c ∈ chars (PyStr.rstrip s) → c ∈ chars s.
Proof.
  revert c. induction s as [|d s IH]; cbn; [done|]. intros c.
  destruct (PyStr.rstrip s) as [|e r] eqn:Hr.
  - destruct (PyStr.isspace d); cbn; [by intros ?%elem_of_nil|].
    intros ->%list_elem_of_singleton. by left.
  - cbn. intros [->|H]%elem_of_cons; [by left|]. right. by apply IH.
Qed.

Lemma strip_chars s c : c ∈ chars (PyStr.strip s) → c ∈ chars s.
Proof. intros H. by apply lstrip_chars, rstrip_chars. Qed.

Lemma rstrip_cons c s :
  PyStr.rstrip (String c s)
  = match PyStr.rstrip s with
    | EmptyString => if PyStr.isspace c then EmptyString else String c EmptyString
    | r => String c r
    end.
Proof. reflexivity. Qed.

Lemma rstrip_idem s : PyStr.rstrip (PyStr.rstrip s) = PyStr.rstrip s.
Proof.
  induction s as [|d s IH]; cbn; [done|].
  destruct (PyStr.rstrip s) as [|e r] eqn:Hr.
  - destruct (PyStr.isspace d) eqn:Hd; cbn; [done|]. by rewrite Hd.
  - by rewrite rstrip_cons, IH.
Qed.

Lemma lstrip_idem s : PyStr.lstrip (PyStr.lstrip s) = PyStr.lstrip s.
Proof.
  induction s as [|d s IH]; cbn; [done|].
  destruct (PyStr.isspace d) eqn:Hd; [done|]. cbn. by rewrite Hd.
Qed.

(** Stripping the right end leaves a clean left end clean. *)
Lemma lstrip_rstrip s :
  PyStr.lstrip s = s → PyStr.lstrip (PyStr.rstrip s) = PyStr.rstrip s.
Proof.
  destruct s as [|d s]; cbn; [done|].
  destruct (PyStr.isspace d) eqn:Hd.
  - intros H. exfalso.
    assert (String.length (PyStr.lstrip s) ≤ String.length s) as Hlen.
    { clear. induction s as [|e s IH]; cbn; [done|].
      destruct (PyStr.isspace e); cbn; lia. }
    rewrite H in Hlen. cbn in Hlen. lia.
  - intros _. destruct (PyStr.rstrip s); cbn; by rewrite Hd.
Qed.

Lemma strip_idem s : PyStr.strip (PyStr.strip s) = PyStr.strip s.
Proof.
  unfold PyStr.strip.
  rewrite (lstrip_rstrip (PyStr.lstrip s)) by apply lstrip_idem.
  apply rstrip_idem.
Qed.

Lemma split_cons c s :
  PyStr.split (String c s)
  = if PyStr.isspace c then PyStr.split s
    else match s with
         | EmptyString => [String c EmptyString]
         | String c' _ =>
             if PyStr.isspace c' then String c EmptyString :: PyStr.split s
             else match PyStr.split s with
                  | w :: ws => String c w :: ws
                  | [] => [String c EmptyString]
                  end
         end.
Proof. reflexivity. Qed.

(** A word in front of the empty string or of whitespace is the first
    word of the split. *)
Lemma split_token x s :
  token x →
  (s = "" ∨ ∃ c s', s = String c s' ∧ PyStr.isspace c = true) →
  PyStr.split (x +:+ s) = x :: PyStr.split s.
Proof.
  intros [Hne Hfree] Hs. induction x as [|c x IH]; [done|]. clear Hne.
  apply Forall_cons in Hfree as [Hc Hfree].
  rewrite str_app_cons, split_cons, Hc.
  destruct x as [|d x].
  - rewrite str_app_nil_l.
    destruct Hs as [->|(c' & s' & -> & Hc')]; [done|].
    cbv beta iota. by rewrite Hc'.
  - pose proof Hfree as [Hd _]%Forall_cons.
    rewrite str_app_cons. cbv beta iota. rewrite Hd.
    rewrite <-str_app_cons, IH by done. done.
Qed.

Lemma join_cons_cons sep x y l :
  PyStr.join sep (x :: y :: l) = x +:+ sep +:+ PyStr.join sep (y :: l).
Proof. reflexivity. Qed.

(** Words joined by single spaces split back into the words. *)
Lemma split_join (l : list string) :
  Forall token l → PyStr.split (PyStr.join " " l) = l.
Proof.
  induction 1 as [|x l Hx Hl IH]; [done|].
  destruct l as [|y l].
  - cbn [PyStr.join]. rewrite <-(str_app_nil_r x) at 1.
    rewrite split_token by auto. done.
  - rewrite join_cons_cons.
    change (" " +:+ ?j) with (String " " j).
    rewrite split_token by (try done; right; by eexists _, _).
    rewrite split_cons. cbn [PyStr.isspace]. by rewrite IH.
Qed.

(** Comma-free strings joined by commas split back into the strings. *)
Lemma split_sep_join (l : list string) :
  l ≠ [] → Forall comma_free l →
  PyStr.split_sep "," (PyStr.join "," l) = l.
Proof.
  intros Hne Hl. induction Hl as [|x l Hx Hl IH]; [done|]. clear Hne.
  destruct l as [|y l].
  - cbn [PyStr.join]. by apply split_sep_id.
  - rewrite join_cons_cons.
    change ("," +:+ ?j) with (String "," j).
    rewrite split_sep_app, split_sep_id, IH by done. done.
Qed.

End str_split.

(** ** The names of the package argument *)

Lemma package_names_of_clean (p : string) :
  Forall clean_name (package_names_of p).
Proof.
  apply Forall_forall. intros n Hn. unfold package_names_of in Hn.
  apply list_elem_of_In, in_flat_map in Hn as (q & Hq & Hn).
  apply list_elem_of_In in Hq.
  destruct (PyStr.nonempty (PyStr.strip q)) eqn:Hs; [|by destruct Hn].
  destruct Hn as [<-|[]]. repeat split.
  - intros Heq. by rewrite Heq in Hs.
  - apply strip_idem.
  - intros Hc%strip_chars. by apply (split_sep_no_sep "," p q).
Qed.

(** X1. Every name that [test_image] takes from the package argument is
    non-empty, has no whitespace at either end and holds no comma. *)
Theorem package_names_clean (p : string) :
  Forall clean_name (package_names_of p).
Proof. apply package_names_of_clean. Qed.

(** X2. A package argument made of clean names joined by commas is read
    back as those names, in order. *)
Theorem package_names_of_join (names : list string) :
  Forall clean_name names →
  package_names_of (PyStr.join "," names) = names.
Proof.
  intros Hall. unfold package_names_of.
  destruct names as [|n names]; [done|].
  rewrite split_sep_join;
    [|done|eapply Forall_impl; [exact Hall|by intros ? (_ & _ & ?)]].
  induction Hall as [|x l (Hne & Hs & _) _ IH]; [done|].
  cbn [flat_map]. rewrite Hs, IH. by destruct x.
Qed.

Lemma package_names_of_join_witness :
  package_names_of (PyStr.join "," ["bash"; "zlib"; "core utils"])
  = ["bash"; "zlib"; "core utils"].
Proof.
  apply (package_names_of_join ["bash"; "zlib"; "core utils"]).
  repeat constructor; try done; apply (bool_decide_unpack _); vm_compute;
    exact I.
Defined.

(** X3. The names of two package arguments put together with a comma are
    the names of the first followed by the names of the second. *)
Theorem package_names_of_comma (a b : string) :
  package_names_of (a +:+ "," +:+ b)
  = package_names_of a ++ package_names_of b.
Proof.
  unfold package_names_of. change ("," +:+ b) with (String "," b).
  by rewrite split_sep_app, flat_map_app.
Qed.

(** ** More on the resolver *)

Section resolver_more.
Variable w : World.

Lemma collect_loop_returns_inv names install result :
  outcome (collect_loop w names install) = inr result →
  Forall (resolves w) names.
Proof.
  revert install. induction names as [|pn names IH]; intros install Hout;
    [constructor|].
  destruct (parse_recipe w pn) as [rd|] eqn:Hrd.
  - rewrite (collect_loop_cons_Some _ _ rd) in Hout by done.
    constructor; [by exists rd|]. by eapply IH.
  - by rewrite collect_loop_cons_None in Hout.
Qed.

Lemma collect_loop_raises_inv names install e :
  outcome (collect_loop w names install) = inl e →
  ∃ pre pn post,
    names = pre ++ pn :: post ∧ Forall (resolves w) pre
    ∧ parse_recipe w pn = None
    ∧ e = DevtoolError
            ("Unable to find or parse recipe for package " +:+ pn).
Proof.
  revert install. induction names as [|pn names IH]; intros install Hout;
    [done|].
  destruct (parse_recipe w pn) as [rd|] eqn:Hrd.
  - rewrite (collect_loop_cons_Some _ _ rd) in Hout by done.
    destruct (IH _ Hout) as (pre & x & post & -> & Hpre & Hx & ->).
    exists (pn :: pre), x, post. repeat split; try done.
    constructor; [by exists rd|done].
  - rewrite collect_loop_cons_None in Hout by done.
    injection Hout as <-. by exists [], pn, names.
Qed.

Lemma parse_calls_cons_log rd pn t :
  parse_calls (ParseRecipe pn :: ptest_log rd pn :: t) = pn :: parse_calls t.
Proof. unfold parse_calls, ptest_log. by case_decide. Qed.

Lemma collect_loop_calls_prefix names install :
  parse_calls (trace (collect_loop w names install)) `prefix_of` names.
Proof.
  revert install. induction names as [|pn names IH]; intros install.
  - by exists [].
  - destruct (parse_recipe w pn) as [rd|] eqn:Hrd.
    + rewrite (collect_loop_cons_Some _ _ rd) by done.
      cbn [trace fst]. rewrite parse_calls_cons_log.
      apply prefix_cons, IH.
    + rewrite collect_loop_cons_None by done. by exists names.
Qed.

Lemma collect_loop_calls_resolved names install :
  Forall (resolves w) names →
  parse_calls (trace (collect_loop w names install)) = names.
Proof.
  intros Hall. revert install.
  induction Hall as [|pn names [rd Hrd] _ IH]; intros install; [done|].
  rewrite (collect_loop_cons_Some _ _ rd) by done.
  cbn [trace fst]. by rewrite parse_calls_cons_log, IH.
Qed.

Lemma collect_loop_counts names install result :
  outcome (collect_loop w names install) = inr result →
  length result
  = length install + length names
    + length (List.filter is_including_log
                (trace (collect_loop w names install)))
  ∧ length (List.filter is_including_log
              (trace (collect_loop w names install)))
    + length (List.filter is_missing_log
                (trace (collect_loop w names install)))
    = length names.
Proof.
  revert install. induction names as [|pn names IH]; intros install Hout.
  - cbn in Hout |- *. injection Hout as <-. lia.
  - destruct (parse_recipe w pn) as [rd|] eqn:Hrd;
      [|by rewrite collect_loop_cons_None in Hout].
    rewrite (collect_loop_cons_Some _ _ rd) in Hout |- * by done.
    cbn [outcome trace fst snd] in Hout |- *.
    destruct (IH _ Hout) as [Hlen Hlogs].
    rewrite Hlen, length_app. clear Hlen IH Hout.
    unfold segment, ptest_log in *. case_decide; cbn in *; lia.
Qed.

End resolver_more.

(** X4. The resolver returns a list exactly when every requested name has
    a recipe. *)
Theorem collect_returns_iff_resolved (w : World)
    (package_names : list string) :
  (∃ install,
     outcome (_collect_install_packages w package_names) = inr install)
  ↔ Forall (resolves w) package_names.
Proof.
  split.
  - intros [install Hout]. by eapply collect_loop_returns_inv.
  - intros Hall. eexists. by apply collect_resolved.
Qed.

(** X5. An error of the resolver names a requested name that has no
    recipe, and every name requested before that one has a recipe. *)
Theorem collect_error_first_unresolved (w : World)
    (package_names : list string) (e : exn) :
  outcome (_collect_install_packages w package_names) = inl e →
  ∃ pre pn post,
    package_names = pre ++ pn :: post
    ∧ Forall (resolves w) pre
    ∧ parse_recipe w pn = None
    ∧ e = DevtoolError
            ("Unable to find or parse recipe for package " +:+ pn).
Proof. apply collect_loop_raises_inv. Qed.

Lemma collect_error_first_unresolved_witness :
  ∃ pre pn post,
    ["bash"; "nope"; "zlib"; "none"] = pre ++ pn :: post
    ∧ Forall (resolves (demo_world 0)) pre
    ∧ parse_recipe (demo_world 0) pn = None
    ∧ DevtoolError "Unable to find or parse recipe for package nope"
      = DevtoolError ("Unable to find or parse recipe for package " +:+ pn).
Proof.
  apply (collect_error_first_unresolved (demo_world 0)
           ["bash"; "nope"; "zlib"; "none"]).
  reflexivity.
Defined.

(** X6. The resolver looks the names up one at a time in the order of the
    request and never looks up a name that was not requested: the names
    looked up are a prefix of the request, and the whole request when every
    name has a recipe (a name requested twice is looked up twice). *)
Theorem collect_lookups_in_order (w : World) (package_names : list string) :
  parse_calls (trace (_collect_install_packages w package_names))
    `prefix_of` package_names
  ∧ (Forall (resolves w) package_names →
     parse_calls (trace (_collect_install_packages w package_names))
     = package_names).
Proof.
  split; [apply collect_loop_calls_prefix|apply collect_loop_calls_resolved].
Qed.

(** X7. The returned install list has at least as many entries as the
    request and at most twice as many. *)
Theorem install_length_bounds (w : World) (package_names install : list string) :
  outcome (_collect_install_packages w package_names) = inr install →
  length package_names ≤ length install ≤ 2 * length package_names.
Proof.
  intros Hout. destruct (collect_loop_counts w _ _ _ Hout) as [Hlen Hlogs].
  unfold _collect_install_packages in *. cbn in Hlen. lia.
Qed.

Lemma install_length_bounds_witness :
  length ["zlib"; "bash"] ≤ length ["zlib"; "bash"; "bash-ptest"]
  ≤ 2 * length ["zlib"; "bash"].
Proof.
  apply (install_length_bounds (demo_world 0) ["zlib"; "bash"]).
  reflexivity.
Defined.

(** X8. The resolver writes one log record for each requested name: the
    record of an added test variant or the record of a missing one; the
    install list is longer than the request by the number of records of
    added variants. *)
Theorem collect_one_record_per_name (w : World)
    (package_names install : list string) :
  outcome (_collect_install_packages w package_names) = inr install →
  length (List.filter is_including_log
            (trace (_collect_install_packages w package_names)))
  + length (List.filter is_missing_log
              (trace (_collect_install_packages w package_names)))
  = length package_names
  ∧ length install
    = length package_names
      + length (List.filter is_including_log
                  (trace (_collect_install_packages w package_names))).
Proof.
  intros Hout. destruct (collect_loop_counts w _ _ _ Hout) as [Hlen Hlogs].
  unfold _collect_install_packages. cbn in Hlen. split; [done|lia].
Qed.

Lemma collect_one_record_per_name_witness :
  let t := trace (_collect_install_packages (demo_world 0)
                    ["zlib"; "bash"; "bash"]) in
  length (List.filter is_including_log t)
  + length (List.filter is_missing_log t)
  = length ["zlib"; "bash"; "bash"]
  ∧ length ["zlib"; "bash"; "bash-ptest"; "bash"; "bash-ptest"]
    = length ["zlib"; "bash"; "bash"]
      + length (List.filter is_including_log t).
Proof.
  apply (collect_one_record_per_name (demo_world 0) ["zlib"; "bash"; "bash"]).
  reflexivity.
Defined.

(** X9. The install list holds nothing but requested names and test
    variants of requested names that the recipe of the name lists in
    [PACKAGES]. *)
Theorem install_entries_requested (w : World)
    (package_names install : list string) (x : string) :
  outcome (_collect_install_packages w package_names) = inr install →
  x ∈ install →
  x ∈ package_names
  ∨ ∃ pn rd,
      pn ∈ package_names ∧ parse_recipe w pn = Some rd
      ∧ ptest_listed rd pn ∧ x = pn +:+ "-ptest".
Proof.
  intros Hout Hx.
  assert (Forall (resolves w) package_names) as Hall
    by (by eapply collect_loop_returns_inv).
  rewrite collect_resolved in Hout by done. injection Hout as <-.
  unfold segments in Hx.
  apply list_elem_of_In, in_concat in Hx as (seg & Hseg & Hx).
  apply list_elem_of_In in Hseg, Hx.
  apply list_elem_of_fmap in Hseg as (pn & -> & Hpn).
  destruct (parse_recipe w pn) as [rd|] eqn:Hrd; cbn in Hx;
    [|by apply elem_of_nil in Hx].
  unfold segment in Hx. apply elem_of_cons in Hx as [->|Hx]; [by left|].
  case_decide; [|by apply elem_of_nil in Hx].
  apply list_elem_of_singleton in Hx as ->. right. by exists pn, rd.
Qed.

Lemma install_entries_requested_witness :
  "bash-ptest" ∈ ["zlib"; "bash"]
  ∨ ∃ pn rd,
      pn ∈ ["zlib"; "bash"] ∧ parse_recipe (demo_world 0) pn = Some rd
      ∧ ptest_listed rd pn ∧ "bash-ptest" = pn +:+ "-ptest".
Proof.
  apply (install_entries_requested (demo_world 0) ["zlib"; "bash"]
           ["zlib"; "bash"; "bash-ptest"]).
  - reflexivity.
  - apply (bool_decide_unpack _). vm_compute. exact I.
Defined.

(** X10. When the recipe of every requested name leaves [PACKAGES] unset
    or empty, the install list is the request itself. *)
Theorem no_packages_no_variant (w : World) (package_names : list string) :
  Forall (λ pn, ∃ rd,
            parse_recipe w pn = Some rd
            ∧ (getVar rd "PACKAGES" = None
               ∨ getVar rd "PACKAGES" = Some ""))
         package_names →
  outcome (_collect_install_packages w package_names) = inr package_names.
Proof.
  intros Hall. rewrite collect_resolved.
  - f_equal. induction Hall as [|pn names (rd & Hrd & Hvar) _ IH]; [done|].
    unfold segments in *. cbn [fmap list_fmap concat]. rewrite Hrd, IH.
    cbn [from_option]. unfold segment, packages_of.
    assert (PyStr.split (default "" (getVar rd "PACKAGES")) = []) as ->
      by (by destruct Hvar as [-> | ->]).
    case_decide as Hin; [by apply elem_of_nil in Hin|done].
  - eapply Forall_impl; [exact Hall|]. intros pn (rd & Hrd & _). by exists rd.
Qed.

Lemma no_packages_no_variant_witness :
  outcome (_collect_install_packages bare_world ["busybox"; "dropbear"])
  = inr ["busybox"; "dropbear"].
Proof.
  apply (no_packages_no_variant bare_world ["busybox"; "dropbear"]).
  repeat constructor; exists bare_rd; split; try reflexivity; by left.
Defined.

(** ** The package list of the overlay *)

Lemma pkg_append_same_elements (l1 l2 : list string) :
  (∀ x, x ∈ l1 ↔ x ∈ l2) → pkg_append_of l1 = pkg_append_of l2.
Proof.
  intros Heq. unfold pkg_append_of, PyStr.set. do 2 f_equal.
  apply set_eq. intros x. by rewrite !elem_of_list_to_set.
Qed.

(** The install list holds a name exactly when it was requested or is a
    listed test variant of a requested name. *)
Lemma install_elem_iff (w : World) (names : list string) (x : string) :
  Forall (resolves w) names →
  x ∈ concat (segments w names)
  ↔ x ∈ names
    ∨ ∃ pn rd,
        pn ∈ names ∧ parse_recipe w pn = Some rd
        ∧ ptest_listed rd pn ∧ x = pn +:+ "-ptest".
Proof.
  unfold ptest_listed.
  induction 1 as [|n names [rd Hrd] _ IH].
  - cbn. split; [by intros ?%elem_of_nil|].
    intros [?%elem_of_nil|(pn & ? & ?%elem_of_nil & _)]; done.
  - unfold segments in *. cbn [fmap list_fmap concat].
    rewrite Hrd. cbn [from_option]. rewrite elem_of_app, IH.
    unfold segment. split.
    + intros [Hx|[Hx|(pn & rd' & Hpn & ?)]].
      * apply elem_of_cons in Hx as [->|Hx]; [left; by left|].
        case_decide; [|by apply elem_of_nil in Hx].
        apply list_elem_of_singleton in Hx as ->.
        right. exists n, rd. split; [by left|done].
      * left. by right.
      * right. exists pn, rd'. split; [by right|done].
    + intros [[->|Hx]%elem_of_cons|(pn & rd' & [->|Hpn]%elem_of_cons & Hr & Hl & ->)].
      * left. by left.
      * right. by left.
      * left. right. rewrite Hrd in Hr. injection Hr as <-.
        case_decide; [by left|done].
      * right. right. by exists pn, rd'.
Qed.

(** X11. The package list written into the overlay depends only on which
    names the install list holds, not on their order or on how often they
    occur. *)
Theorem pkg_append_set_only (l1 l2 : list string) :
  (∀ x, x ∈ l1 ↔ x ∈ l2) → pkg_append_of l1 = pkg_append_of l2.
Proof. apply pkg_append_same_elements. Qed.

Lemma pkg_append_set_only_witness :
  pkg_append_of ["zlib"; "bash"; "zlib"] = pkg_append_of ["bash"; "zlib"].
Proof.
  apply (pkg_append_set_only ["zlib"; "bash"; "zlib"] ["bash"; "zlib"]).
  intros x. rewrite !elem_of_cons, !elem_of_nil. tauto.
Defined.

(** X12. Two requests that name the same packages, in any order and with
    any repetitions, lead to the same overlay. *)
Theorem overlay_ignores_request_order (w : World) (names1 names2 : list string)
    (install1 install2 : list string) (logdir : string) :
  (∀ x, x ∈ names1 ↔ x ∈ names2) →
  outcome (_collect_install_packages w names1) = inr install1 →
  outcome (_collect_install_packages w names2) = inr install2 →
  extra_append logdir (pkg_append_of install1)
  = extra_append logdir (pkg_append_of install2).
Proof.
  intros Hsame Hout1 Hout2. f_equal. apply pkg_append_same_elements.
  assert (Forall (resolves w) names1) as Hall1
    by (by eapply collect_loop_returns_inv).
  assert (Forall (resolves w) names2) as Hall2
    by (by eapply collect_loop_returns_inv).
  rewrite collect_resolved in Hout1, Hout2 by done.
  injection Hout1 as <-. injection Hout2 as <-.
  intros x. rewrite !install_elem_iff by done.
  split; (intros [Hx|(pn & rd & Hpn & ?)];
          [left; by apply Hsame|right; exists pn, rd; split;
                                 [by apply Hsame|done]]).
Qed.

Lemma overlay_ignores_request_order_witness :
  extra_append "/ws/testimage-logs"
    (pkg_append_of ["zlib"; "bash"; "bash-ptest"; "zlib"])
  = extra_append "/ws/testimage-logs"
      (pkg_append_of ["bash"; "bash-ptest"; "zlib"]).
Proof.
  apply (overlay_ignores_request_order (demo_world 0)
           ["zlib"; "bash"; "zlib"] ["bash"; "zlib"]).
  - intros x. rewrite !elem_of_cons, !elem_of_nil. tauto.
  - reflexivity.
  - reflexivity.
Defined.

(** X13. When the names of the install list are non-empty and free of
    whitespace, splitting the package list of the overlay at whitespace
    gives the names back: each once, in ascending order. *)
Theorem pkg_append_splits_back (install_pkgs : list string) :
  Forall token install_pkgs →
  PyStr.split (pkg_append_of install_pkgs)
  = PyStr.sorted (PyStr.set install_pkgs).
Proof.
  intros Hall. unfold pkg_append_of. apply split_join.
  apply Forall_forall. intros x Hx.
  apply (proj1 (sorted_set_elem_of _ _)) in Hx.
  by apply (proj1 (Forall_forall _ _) Hall).
Qed.

Lemma pkg_append_splits_back_witness :
  PyStr.split (pkg_append_of ["zlib"; "bash"; "zlib"])
  = PyStr.sorted (PyStr.set ["zlib"; "bash"; "zlib"]).
Proof.
  apply (pkg_append_splits_back ["zlib"; "bash"; "zlib"]).
  repeat constructor; done.
Defined.

(** ** The phases of a run *)

Lemma resolver_no_dispatch (t : list event) :
  Forall resolver_event t → List.filter is_dispatch t = [].
Proof.
  induction 1 as [|ev t Hev _ IH]; [done|]. cbn. rewrite IH.
  by destruct ev.
Qed.

Lemma run_phases (w : World) (args : Args) (config : Config) :
  trace (test_image w args config) = []
  ∨ ∃ p rest,
      package args = Some p
      ∧ trace (test_image w args config)
        = SetupTinfoil
            :: trace (_collect_install_packages w (package_names_of p))
            ++ TinfoilShutdown :: rest
      ∧ Forall after_session_event rest.
Proof.
  generalize (test_image_exits w args config).
  generalize (test_image w args config). intros r Hr.
  destruct Hr as [msg _|img p e _ Hp _
                 |img p install_pkgs exc _ Hp _ _
                 |img p install_pkgs _ Hp _ _ logdir ov result];
    cbn [trace fst]; [by left|right; exists p..].
  - by exists [].
  - exists [Makedirs (logdir_of config) true]. by repeat constructor.
  - exists ([Makedirs logdir true; building_log img install_pkgs;
             BuildImageTask img None "testimage" ov]
            ++ (if (result =? 0)%Z then [completion_log logdir] else [])).
    repeat split; try done. apply Forall_app. split.
    + repeat apply Forall_cons_2; try done. by left.
    + destruct (result =? 0)%Z; [|constructor].
      apply Forall_cons_2; [by right|constructor].
Qed.

Lemma parse_call_elem_of (t : list event) (pn : string) :
  ParseRecipe pn ∈ t ↔ pn ∈ parse_calls t.
Proof.
  unfold parse_calls. rewrite list_elem_of_omap. split.
  - intros H. by exists (ParseRecipe pn).
  - intros (ev & Hev & Heq). destruct ev; try done. by injection Heq as ->.
Qed.


(** X15. Every name that a run looks up is one of the names of the package
    argument, and so is non-empty, stripped and free of commas. *)
Theorem lookups_are_clean_names (w : World) (args : Args) (config : Config)
    (pn : string) :
  ParseRecipe pn ∈ trace (test_image w args config) →
  ∃ p, package args = Some p ∧ pn ∈ package_names_of p ∧ clean_name pn.
Proof.
  intros Hin.
  destruct (run_phases w args config) as [Ht|(p & rest & Hp & Ht & Hrest)];
    rewrite Ht in Hin; [by apply elem_of_nil in Hin|].
  exists p. split; [done|].
  assert (pn ∈ package_names_of p) as Hpn.
  { rewrite elem_of_cons, elem_of_app, elem_of_cons in Hin.
    destruct Hin as [?|[Hin|[?|Hin]]]; try done.
    - apply parse_call_elem_of in Hin.
      destruct (collect_loop_calls_prefix w (package_names_of p) [])
        as [k Hk].
      rewrite Hk. apply elem_of_app. by left.
    - by apply (proj1 (Forall_forall _ _) Hrest) in Hin. }
  split; [done|].
  by apply (proj1 (Forall_forall _ _) (package_names_of_clean p)).
Qed.

Lemma lookups_are_clean_names_witness :
  ∃ p,
    package (demo_args "core-image-minimal" " bash ,, zlib") = Some p
    ∧ "zlib" ∈ package_names_of p ∧ clean_name "zlib".
Proof.
  apply (lookups_are_clean_names (demo_world 0)
           (demo_args "core-image-minimal" " bash ,, zlib") demo_config).
  apply (bool_decide_unpack _). vm_compute. exact I.
Defined.

(** ** How a run ends *)



(** ** The call of [build_image_task] *)

(** X17. When a run calls [build_image_task] it does so once: for the image
    named on the command line, for the task [testimage], without extra
    packages, and with an overlay of ten statements whose first sets
    [TEST_LOG_DIR] to the directory the run has just asked to create. *)
Theorem dispatch_arguments (w : World) (args : Args) (config : Config)
    (image : string) (add : option (list string)) (task : string)
    (overlay : list string) :
  BuildImageTask image add task overlay ∈ trace (test_image w args config) →
  imagename args = Some image ∧ add = None ∧ task = "testimage"
  ∧ length overlay = 10
  ∧ head overlay
    = Some ("TEST_LOG_DIR = " +:+ PyStr.dq +:+ logdir_of config
            +:+ PyStr.dq)
  ∧ Makedirs (logdir_of config) true ∈ trace (test_image w args config)
  ∧ List.filter is_dispatch (trace (test_image w args config))
    = [BuildImageTask image None "testimage" overlay].
Proof.
  intros Hin.
  destruct (dispatch_inv _ _ _ _ _ _ _ Hin)
    as (p & install_pkgs & Himg & _ & -> & -> & _ & _ & -> & ->).
  cbn [trace fst]. repeat split; try done.
  - rewrite elem_of_cons, !elem_of_app, !elem_of_cons. tauto.
  - cbn [List.filter is_dispatch].
    rewrite !List.filter_app, resolver_no_dispatch by apply collect_events.
    cbn -[Z.eqb extra_append]. by destruct (_ =? 0)%Z.
Qed.

Lemma dispatch_arguments_witness :
  let w := demo_world 0 in
  let args := demo_args "core-image-minimal" "bash" in
  let overlay := extra_append "/ws/testimage-logs" "bash bash-ptest" in
  imagename args = Some "core-image-minimal"
  ∧ (None : option (list string)) = None ∧ "testimage" = "testimage"
  ∧ length overlay = 10
  ∧ head overlay
    = Some ("TEST_LOG_DIR = " +:+ PyStr.dq +:+ logdir_of demo_config
            +:+ PyStr.dq)
  ∧ Makedirs (logdir_of demo_config) true
    ∈ trace (test_image w args demo_config)
  ∧ List.filter is_dispatch (trace (test_image w args demo_config))
    = [BuildImageTask "core-image-minimal" None "testimage" overlay].
Proof.
  apply (dispatch_arguments (demo_world 0)
           (demo_args "core-image-minimal" "bash") demo_config
           "core-image-minimal" None "testimage").
  apply (bool_decide_unpack _). vm_compute. exact I.
Defined.
